(** * core-js-101, src/06-objects-tasks.js

    A shallow embedding of the objects tasks: the [Rectangle] constructor,
    the [getJSON] / [fromJSON] pair and the [Selector] class behind
    [cssSelectorBuilder], followed by the properties of each.

    JavaScript methods that mutate [this] and may throw are written in a
    small state-and-exception monad: a computation takes the object it runs
    on and gives back a completion (normal or thrown) together with the
    object as the call left it, so that what a throwing call did to the
    object before it threw stays visible. *)

From Stdlib Require Import ZArith NArith String Ascii List Bool Lia Sorted DecimalString.
From Stdlib Require Import DecimalPos DecimalFacts.
From Stdlib Require Import PrimFloat.
Import ListNotations.

Local Open Scope string_scope.
Local Open Scope Z_scope.

(* ------------------------------------------------------------------ *)
(** ** Completions and the method monad *)

Module Js.

(** How a call ends: with a value, or with [throw new Error(msg)]. *)
Inductive completion (A : Type) : Type :=
| Normal (a : A)
| Throw (msg : string).

Arguments Normal {A} a.
Arguments Throw {A} msg.

(** A method of an object of type [S]. *)
Definition method (S A : Type) : Type := S -> completion A * S.

Definition ret {S A} (a : A) : method S A := fun this => (Normal a, this).

Definition bind {S A B} (m : method S A) (k : A -> method S B) : method S B :=
  fun this =>
    match m this with
    | (Normal a, this') => k a this'
    | (Throw msg, this') => (Throw msg, this')
    end.

Definition throw {S A} (msg : string) : method S A :=
  fun this => (Throw msg, this).

(** Reading a field of [this], and assigning to [this]. *)
Definition read {S A} (field : S -> A) : method S A :=
  fun this => (Normal (field this), this).

Definition assign {S} (upd : S -> S) : method S unit :=
  fun this => (Normal tt, upd this).

Definition completed {S A} (r : completion A * S) : bool :=
  match fst r with Normal _ => true | Throw _ => false end.

Definition thrown {S A} (r : completion A * S) : bool :=
  negb (completed r).

End Js.

Import Js.

Declare Scope js_scope.
Delimit Scope js_scope with js.
Notation "x <- m ;; k" := (bind m (fun x => k))
  (at level 61, m at next level, right associativity) : js_scope.
Notation "m ;; k" := (bind m (fun _ => k))
  (at level 61, right associativity) : js_scope.
Local Open Scope js_scope.

(* ------------------------------------------------------------------ *)
(** ** The Selector class *)

Module Selector.

Record Selector : Type := mkSelector {
  resultSelector : string;
  currentSelectorInQueue : Z;
  errorMessageForRepeat : string;
  errorMessageForSequence : string
}.

Definition set_resultSelector (v : string) (this : Selector) : Selector :=
  mkSelector v (currentSelectorInQueue this)
             (errorMessageForRepeat this) (errorMessageForSequence this).

Definition set_currentSelectorInQueue (n : Z) (this : Selector) : Selector :=
  mkSelector (resultSelector this) n
             (errorMessageForRepeat this) (errorMessageForSequence this).

(** [constructor()] *)
Definition new_Selector : Selector :=
  {| resultSelector := "";
     currentSelectorInQueue := 0;
     errorMessageForRepeat :=
       "Element, id and pseudo-element should not occur more then one time inside the selector";
     errorMessageForSequence :=
       "Selector parts should be arranged in the following order: element, id, class, attribute, pseudo-class, pseudo-element" |}.

Definition checkSelectorsQueue (nextSelectorInQueue : Z) : method Selector unit :=
  cur <- read currentSelectorInQueue ;;
  if cur >? nextSelectorInQueue then
    msg <- read errorMessageForSequence ;; throw msg
  else if (cur =? nextSelectorInQueue)
          && ((nextSelectorInQueue =? 1)
              || (nextSelectorInQueue =? 2)
              || (nextSelectorInQueue =? 6)) then
    msg <- read errorMessageForRepeat ;; throw msg
  else ret tt.

(** Every fragment method ends in [return this]: the object returned is the
    receiver, which the monad threads, so the methods return [unit]. *)

Definition element (value : string) : method Selector unit :=
  checkSelectorsQueue 1 ;;
  assign (set_currentSelectorInQueue 1) ;;
  assign (set_resultSelector value).

Definition id (value : string) : method Selector unit :=
  checkSelectorsQueue 2 ;;
  assign (set_currentSelectorInQueue 2) ;;
  old <- read resultSelector ;;
  assign (set_resultSelector (old ++ "#" ++ value)).

Definition class (value : string) : method Selector unit :=
  checkSelectorsQueue 3 ;;
  assign (set_currentSelectorInQueue 3) ;;
  old <- read resultSelector ;;
  assign (set_resultSelector (old ++ "." ++ value)).

Definition attr (value : string) : method Selector unit :=
  checkSelectorsQueue 4 ;;
  assign (set_currentSelectorInQueue 4) ;;
  old <- read resultSelector ;;
  assign (set_resultSelector (old ++ "[" ++ value ++ "]")).

Definition pseudoClass (value : string) : method Selector unit :=
  checkSelectorsQueue 5 ;;
  assign (set_currentSelectorInQueue 5) ;;
  old <- read resultSelector ;;
  assign (set_resultSelector (old ++ ":" ++ value)).

Definition pseudoElement (value : string) : method Selector unit :=
  checkSelectorsQueue 6 ;;
  assign (set_currentSelectorInQueue 6) ;;
  old <- read resultSelector ;;
  assign (set_resultSelector (old ++ "::" ++ value)).

(** [stringify()] reads the text and changes nothing. *)
Definition stringify (this : Selector) : string := resultSelector this.

(** [combine(selector1, combinator, selector2)]: both arguments are rendered
    before the receiver's text is assigned, so the arguments are taken as the
    objects they are at the time of the call. *)
Definition combine (selector1 : Selector) (combinator : string)
           (selector2 : Selector) : method Selector unit :=
  assign (set_resultSelector
            (stringify selector1 ++ " " ++ combinator ++ " " ++ stringify selector2)).

End Selector.

(** The facade: every entry creates a fresh [Selector] and delegates. *)
Module cssSelectorBuilder.

Import Selector.

Definition checkSelectorsQueue (nextSelectorInQueue : Z) :=
  Selector.checkSelectorsQueue nextSelectorInQueue new_Selector.

Definition element (value : string) := Selector.element value new_Selector.
Definition id (value : string) := Selector.id value new_Selector.
Definition class (value : string) := Selector.class value new_Selector.
Definition attr (value : string) := Selector.attr value new_Selector.
Definition pseudoClass (value : string) := Selector.pseudoClass value new_Selector.
Definition pseudoElement (value : string) := Selector.pseudoElement value new_Selector.

Definition combine (selector1 : Selector) (combinator : string) (selector2 : Selector) :=
  Selector.combine selector1 combinator selector2 new_Selector.

Definition stringify : string := Selector.stringify new_Selector.

End cssSelectorBuilder.

(* ------------------------------------------------------------------ *)
(** ** Fragment calls as data

    A chained expression [b.id('main').class('container')] is a list of
    fragment calls run left to right on one receiver; an exception ends the
    chain. *)

Module Fragment.

Import Selector.

Inductive fragment : Type :=
| Element (value : string)
| Id (value : string)
| Class (value : string)
| Attr (value : string)
| PseudoClass (value : string)
| PseudoElement (value : string).

(** The method a fragment call invokes. *)
Definition call (f : fragment) : method Selector unit :=
  match f with
  | Element v => element v
  | Id v => id v
  | Class v => class v
  | Attr v => attr v
  | PseudoClass v => pseudoClass v
  | PseudoElement v => pseudoElement v
  end.

(** The rank each method hands to [checkSelectorsQueue] and then stores. *)
Definition rank (f : fragment) : Z :=
  match f with
  | Element _ => 1
  | Id _ => 2
  | Class _ => 3
  | Attr _ => 4
  | PseudoClass _ => 5
  | PseudoElement _ => 6
  end.

(** The rendered form of a fragment, as the specification lists it. *)
Definition render (f : fragment) : string :=
  match f with
  | Element v => v
  | Id v => "#" ++ v
  | Class v => "." ++ v
  | Attr v => "[" ++ v ++ "]"
  | PseudoClass v => ":" ++ v
  | PseudoElement v => "::" ++ v
  end.

Definition nonRepeatable (r : Z) : bool :=
  (r =? 1) || (r =? 2) || (r =? 6).

Fixpoint chain (fs : list fragment) : method Selector unit :=
  match fs with
  | [] => ret tt
  | f :: fs' => call f ;; chain fs'
  end.

Fixpoint renderAll (fs : list fragment) : string :=
  match fs with
  | [] => ""
  | f :: fs' => render f ++ renderAll fs'
  end.

(** The text a successful call leaves: [element] assigns its value, the
    other five methods extend what is there. *)
Definition textAfter (f : fragment) (old : string) : string :=
  match f with
  | Element v => v
  | _ => old ++ render f
  end.

(** What a call needs in order to go through, as a test on the last rank. *)
Definition accepts (last : Z) (f : fragment) : bool :=
  (last <=? rank f) && negb ((last =? rank f) && nonRepeatable (rank f)).

Fixpoint admissible (last : Z) (fs : list fragment) : bool :=
  match fs with
  | [] => true
  | f :: fs' => accepts last f && admissible (rank f) fs'
  end.

(** The rank a chain leaves when every call of it went through. *)
Fixpoint finalRank (last : Z) (fs : list fragment) : Z :=
  match fs with
  | [] => last
  | f :: fs' => finalRank (rank f) fs'
  end.

(** Two builders made through the facade, used in the examples below. *)
Definition div_plus_p : Selector :=
  snd (cssSelectorBuilder.combine (snd (cssSelectorBuilder.element "div")) "+"
                                  (snd (cssSelectorBuilder.element "p"))).

Definition main_child_item : Selector :=
  snd (cssSelectorBuilder.combine (snd (cssSelectorBuilder.id "main")) ">"
                                  (snd (cssSelectorBuilder.class "item"))).

Definition tr_td : Selector :=
  snd (cssSelectorBuilder.combine (snd (cssSelectorBuilder.element "tr")) " "
                                  (snd (cssSelectorBuilder.element "td"))).

End Fragment.

(* ------------------------------------------------------------------ *)
(** ** Rectangle

    JavaScript numbers are IEEE 754 binary64 values, which is what the
    primitive [float] type is; [*] on numbers is [PrimFloat.mul]. *)

Module Rectangle.

Record Rectangle : Type := mkRectangle {
  width : float;
  height : float
}.

(** [new Rectangle(width, height)] *)
Definition new_Rectangle (width height : float) : Rectangle :=
  {| width := width; height := height |}.

(** [getArea()] reads both fields of the receiver when it is called. *)
Definition getArea (this : Rectangle) : float :=
  PrimFloat.mul (width this) (height this).

End Rectangle.

(* ------------------------------------------------------------------ *)
(** ** JavaScript values and the JSON built-ins

    [getJSON] and [fromJSON] are one-line wrappers over [JSON.stringify],
    [JSON.parse], [Object.values] and [new]. The built-ins follow ECMA-262
    on the values below: numbers are the integral ones (no fraction or
    exponent part in the text), strings are ASCII, and object keys are not
    array indices, so that property order is insertion order. A [None] from
    [JSON_parse] or [Object_values] stands for the exception the built-in
    throws; a [None] from [JSON_stringify] for the [undefined] it returns. *)

Module JSON.

#[local] Set Warnings "-register-all".

Inductive value : Type :=
| Undefined
| Null
| Boolean (b : bool)
| Number (n : Z)
| Str (s : string)
| Array (elems : list value)
| Object (props : list (string * value)).

(** *** Property access *)

Fixpoint get_property (k : string) (props : list (string * value)) : value :=
  match props with
  | [] => Undefined
  | (k', v) :: rest => if String.eqb k k' then v else get_property k rest
  end.

(** [obj.k] *)
Definition get (k : string) (obj : value) : value :=
  match obj with
  | Object props => get_property k props
  | _ => Undefined
  end.

(** [obj[k] = v] on the property list: an existing key keeps its place. *)
Fixpoint set_property (k : string) (v : value) (props : list (string * value))
  : list (string * value) :=
  match props with
  | [] => [(k, v)]
  | (k', v') :: rest =>
      if String.eqb k k' then (k, v) :: rest else (k', v') :: set_property k v rest
  end.

(** *** JSON.stringify *)

Definition dquote : ascii := "034"%char.
Definition backslash : ascii := "\"%char.

Definition hex_digit (n : N) : ascii :=
  if (n <? 10)%N then ascii_of_N (48 + n) else ascii_of_N (87 + n).

Definition escape_char (c : ascii) : string :=
  let n := N_of_ascii c in
  if Ascii.eqb c dquote then String backslash (String dquote "")
  else if Ascii.eqb c backslash then String backslash (String backslash "")
  else if (n =? 8)%N then "\b"
  else if (n =? 9)%N then "\t"
  else if (n =? 10)%N then "\n"
  else if (n =? 12)%N then "\f"
  else if (n =? 13)%N then "\r"
  else if (n <? 32)%N then
    "\u00" ++ String (hex_digit (n / 16)) (String (hex_digit (n mod 16)) "")
  else String c "".

Fixpoint escape (s : string) : string :=
  match s with
  | EmptyString => ""
  | String c r => escape_char c ++ escape r
  end.

Definition quote (s : string) : string :=
  String dquote (escape s ++ String dquote "").

Definition string_of_Z (n : Z) : string :=
  DecimalString.NilZero.string_of_int (Z.to_int n).

Fixpoint join (sep : string) (parts : list string) : string :=
  match parts with
  | [] => ""
  | [p] => p
  | p :: rest => p ++ sep ++ join sep rest
  end.

(** An [undefined] property is left out of an object, an [undefined]
    element of an array is written [null]. *)
Fixpoint JSON_stringify (v : value) : option string :=
  match v with
  | Undefined => None
  | Null => Some "null"
  | Boolean true => Some "true"
  | Boolean false => Some "false"
  | Number n => Some (string_of_Z n)
  | Str s => Some (quote s)
  | Array elems =>
      Some ("[" ++ join ","
              (map (fun e => match JSON_stringify e with
                             | Some t => t
                             | None => "null"
                             end) elems) ++ "]")
  | Object props =>
      Some ("{" ++ join ","
              (flat_map (fun kv => match JSON_stringify (snd kv) with
                                   | Some t => [quote (fst kv) ++ ":" ++ t]
                                   | None => []
                                   end) props) ++ "}")
  end.

(** *** JSON.parse *)

Definition is_ws (c : ascii) : bool :=
  let n := N_of_ascii c in
  (n =? 32)%N || (n =? 9)%N || (n =? 10)%N || (n =? 13)%N.

Fixpoint skip_ws (s : string) : string :=
  match s with
  | String c r => if is_ws c then skip_ws r else s
  | EmptyString => s
  end.

Definition digit_of (c : ascii) : option Z :=
  let n := N_of_ascii c in
  if (48 <=? n)%N && (n <=? 57)%N then Some (Z.of_N (n - 48)) else None.

Definition hex_of (c : ascii) : option N :=
  let n := N_of_ascii c in
  if (48 <=? n)%N && (n <=? 57)%N then Some (n - 48)%N
  else if (97 <=? n)%N && (n <=? 102)%N then Some (n - 87)%N
  else if (65 <=? n)%N && (n <=? 70)%N then Some (n - 55)%N
  else None.

Fixpoint parse_digits (acc : Z) (s : string) : Z * string :=
  match s with
  | String c r =>
      match digit_of c with
      | Some d => parse_digits (10 * acc + d) r
      | None => (acc, s)
      end
  | EmptyString => (acc, s)
  end.

(** A fraction or an exponent is outside the numbers modelled. *)
Definition no_fraction (r : string) : bool :=
  match r with
  | String c _ =>
      negb (Ascii.eqb c "."%char || Ascii.eqb c "e"%char || Ascii.eqb c "E"%char)
  | EmptyString => true
  end.

Definition parse_unsigned (s : string) : option (Z * string) :=
  match s with
  | String c r =>
      match digit_of c with
      | Some 0 => if no_fraction r then Some (0, r) else None
      | Some _ =>
          let (n, r') := parse_digits 0 s in
          if no_fraction r' then Some (n, r') else None
      | None => None
      end
  | EmptyString => None
  end.

Definition parse_number (s : string) : option (Z * string) :=
  match s with
  | String "-"%char r =>
      match parse_unsigned r with
      | Some (n, r') => Some (- n, r')
      | None => None
      end
  | _ => parse_unsigned s
  end.

Definition unescape (e : ascii) : option ascii :=
  if Ascii.eqb e dquote then Some dquote
  else if Ascii.eqb e backslash then Some backslash
  else if Ascii.eqb e "/"%char then Some "/"%char
  else if Ascii.eqb e "b"%char then Some "008"%char
  else if Ascii.eqb e "t"%char then Some "009"%char
  else if Ascii.eqb e "n"%char then Some "010"%char
  else if Ascii.eqb e "f"%char then Some "012"%char
  else if Ascii.eqb e "r"%char then Some "013"%char
  else None.

(** The four hex digits of a [\u] escape, for code points below 256. *)
Definition parse_hex4 (a b c d : ascii) : option ascii :=
  match hex_of a, hex_of b, hex_of c, hex_of d with
  | Some 0%N, Some 0%N, Some h, Some l => Some (ascii_of_N (16 * h + l))
  | _, _, _, _ => None
  end.

(** The characters of a string literal after its opening quote, up to and
    including the closing one. *)
Fixpoint parse_chars (s : string) : option (string * string) :=
  match s with
  | EmptyString => None
  | String c r =>
      if Ascii.eqb c dquote then Some ("", r)
      else if Ascii.eqb c backslash then
        match r with
        | String "u"%char (String h1 (String h2 (String h3 (String h4 r')))) =>
            match parse_hex4 h1 h2 h3 h4, parse_chars r' with
            | Some x, Some (t, rest) => Some (String x t, rest)
            | _, _ => None
            end
        | String e r' =>
            match unescape e, parse_chars r' with
            | Some x, Some (t, rest) => Some (String x t, rest)
            | _, _ => None
            end
        | EmptyString => None
        end
      else if (N_of_ascii c <? 32)%N then None
      else
        match parse_chars r with
        | Some (t, rest) => Some (String c t, rest)
        | None => None
        end
  end.

Definition parse_literal (word : string) (v : value) (s : string)
  : option (value * string) :=
  if String.prefix word s
  then Some (v, String.substring (String.length word)
                                 (String.length s - String.length word) s)
  else None.

Fixpoint parse_value (fuel : nat) (s : string) : option (value * string) :=
  match fuel with
  | O => None
  | S fuel' =>
      match skip_ws s with
      | EmptyString => None
      | String c r =>
          if Ascii.eqb c "{"%char then
            match skip_ws r with
            | String "}"%char r' => Some (Object [], r')
            | _ => parse_members fuel' [] r
            end
          else if Ascii.eqb c "["%char then
            match skip_ws r with
            | String "]"%char r' => Some (Array [], r')
            | _ => parse_elements fuel' [] r
            end
          else if Ascii.eqb c dquote then
            match parse_chars r with
            | Some (t, rest) => Some (Str t, rest)
            | None => None
            end
          else if Ascii.eqb c "t"%char then parse_literal "true" (Boolean true) (String c r)
          else if Ascii.eqb c "f"%char then parse_literal "false" (Boolean false) (String c r)
          else if Ascii.eqb c "n"%char then parse_literal "null" Null (String c r)
          else
            match parse_number (String c r) with
            | Some (n, rest) => Some (Number n, rest)
            | None => None
            end
      end
  end

with parse_members (fuel : nat) (acc : list (string * value)) (s : string)
  : option (value * string) :=
  match fuel with
  | O => None
  | S fuel' =>
      match skip_ws s with
      | String c r =>
          if Ascii.eqb c dquote then
            match parse_chars r with
            | Some (k, r1) =>
                match skip_ws r1 with
                | String ":"%char r2 =>
                    match parse_value fuel' r2 with
                    | Some (v, r3) =>
                        let acc' := set_property k v acc in
                        match skip_ws r3 with
                        | String ","%char r4 => parse_members fuel' acc' r4
                        | String "}"%char r4 => Some (Object acc', r4)
                        | _ => None
                        end
                    | None => None
                    end
                | _ => None
                end
            | None => None
            end
          else None
      | EmptyString => None
      end
  end

with parse_elements (fuel : nat) (acc : list value) (s : string)
  : option (value * string) :=
  match fuel with
  | O => None
  | S fuel' =>
      match parse_value fuel' s with
      | Some (v, r1) =>
          let acc' := (acc ++ [v])%list in
          match skip_ws r1 with
          | String ","%char r2 => parse_elements fuel' acc' r2
          | String "]"%char r2 => Some (Array acc', r2)
          | _ => None
          end
      | None => None
      end
  end.

(** Fuel: an opening bracket costs two units on the way down and is paid
    for by itself and its closing bracket; a member or an element costs one
    unit and has at least two characters with its separator. The length of
    the text, plus one, is therefore enough. *)
Definition JSON_parse (text : string) : option value :=
  match parse_value (S (String.length text)) text with
  | Some (v, rest) =>
      match skip_ws rest with
      | EmptyString => Some v
      | _ => None
      end
  | None => None
  end.

(** *** Object.values *)

Definition Object_values (v : value) : option (list value) :=
  match v with
  | Undefined | Null => None
  | Object props => Some (map snd props)
  | Array elems => Some elems
  | Str s => Some (map (fun c => Str (String c "")) (list_ascii_of_string s))
  | Boolean _ | Number _ => Some []
  end.

End JSON.

(** ** getJSON and fromJSON *)

Module Tasks.

Import JSON.

Definition getJSON (obj : value) : option string := JSON_stringify obj.

(** The shape descriptor: an object whose [constructor] property is a
    function of positional arguments, run under [new]. *)
Record Proto : Type := mkProto {
  constructor : list value -> value
}.

Definition fromJSON (proto : Proto) (json : string) : option value :=
  match JSON_parse json with
  | Some parsed =>
      match Object_values parsed with
      | Some args => Some (constructor proto args)
      | None => None
      end
  | None => None
  end.

(** The object literal [{height: 10, width: 20}]. *)
Definition height10_width20 : value :=
  Object [("height", Number 10); ("width", Number 20)].

(** A shape whose constructor is
    [function (height, width) { this.height = height; this.width = width; }];
    a missing argument is [undefined]. *)
Definition HeightWidth : Proto :=
  {| constructor := fun args =>
       Object (set_property "width" (nth 1 args Undefined)
                 (set_property "height" (nth 0 args Undefined) [])) |}.

(** The same fields taken in the other order:
    [function (width, height) { this.width = width; this.height = height; }]. *)
Definition WidthHeight : Proto :=
  {| constructor := fun args =>
       Object (set_property "height" (nth 1 args Undefined)
                 (set_property "width" (nth 0 args Undefined) [])) |}.

End Tasks.

(* ------------------------------------------------------------------ *)
(** ** How a caller uses the builder *)

Module Usage.

Import Selector Fragment.

(** The facade entry for a fragment call: [cssSelectorBuilder.id('main')]
    and the like, each of which starts from a fresh [Selector]. *)
Definition facade (f : fragment) : completion unit * Selector :=
  match f with
  | Element v => cssSelectorBuilder.element v
  | Id v => cssSelectorBuilder.id v
  | Class v => cssSelectorBuilder.class v
  | Attr v => cssSelectorBuilder.attr v
  | PseudoClass v => cssSelectorBuilder.pseudoClass v
  | PseudoElement v => cssSelectorBuilder.pseudoElement v
  end.

(** A caller that wraps each call in [try { ... } catch (e) { }] and goes
    on with the same object. *)
Definition attempt (this : Selector) (f : fragment) : Selector :=
  snd (call f this).

Definition attempts (fs : list fragment) (this : Selector) : Selector :=
  fold_left attempt fs this.

(** The calls of a list that are not rejected, starting from a last rank. *)
Fixpoint kept (last : Z) (fs : list fragment) : list fragment :=
  match fs with
  | [] => []
  | f :: fs' =>
      if accepts last f then f :: kept (rank f) fs' else kept last fs'
  end.

(** The builders a program can get hold of: a new one, and what a fragment
    call or a [combine] of two such builders leaves of one, whether the
    call threw or not. *)
Inductive reachable : Selector -> Prop :=
| reach_new : reachable new_Selector
| reach_call (f : fragment) (this : Selector) :
    reachable this -> reachable (snd (call f this))
| reach_combine (A B : Selector) (c : string) (this : Selector) :
    reachable A -> reachable B -> reachable this ->
    reachable (snd (combine A c B this)).

End Usage.

(* ------------------------------------------------------------------ *)
(** ** The text of a number *)

Module NumberText.

Import JSON.




End NumberText.

(* ------------------------------------------------------------------ *)
(** * Properties of the selector builder *)

Section SelectorFacts.

Import Selector Fragment.

Lemma append_assoc (a b c : string) : ((a ++ b) ++ c = a ++ (b ++ c))%string.
Proof. induction a as [|x a IH]; simpl; [reflexivity | now rewrite IH]. Qed.

(** One equation for all six methods. *)
Lemma call_eq (f : fragment) (this : Selector) :
  call f this =
  if currentSelectorInQueue this >? rank f then
    (Throw (errorMessageForSequence this), this)
  else if (currentSelectorInQueue this =? rank f) && nonRepeatable (rank f) then
    (Throw (errorMessageForRepeat this), this)
  else
    (Normal tt,
     mkSelector (textAfter f (resultSelector this)) (rank f)
                (errorMessageForRepeat this) (errorMessageForSequence this)).
Proof.
  destruct this as [text last rep sq].
  destruct f; cbn [call rank]; unfold element, id, class, attr, pseudoClass,
    pseudoElement, checkSelectorsQueue, bind, read, assign, throw, ret;
    cbn [currentSelectorInQueue errorMessageForRepeat errorMessageForSequence
         resultSelector];
    destruct (last >? _); [reflexivity | | reflexivity | | reflexivity |
                           | reflexivity | | reflexivity | | reflexivity | ];
    destruct (last =? _); reflexivity.
Qed.

Lemma rank_range (f : fragment) : 1 <= rank f <= 6.
Proof. destruct f; simpl; lia. Qed.

Lemma call_accepts (f : fragment) (this : Selector) :
  accepts (currentSelectorInQueue this) f = true ->
  call f this =
    (Normal tt,
     mkSelector (textAfter f (resultSelector this)) (rank f)
                (errorMessageForRepeat this) (errorMessageForSequence this)).
Proof.
  unfold accepts. intros H. rewrite call_eq.
  apply andb_true_iff in H as [Hle Hrep].
  apply Z.leb_le in Hle. apply negb_true_iff in Hrep.
  destruct (Z.gtb_spec (currentSelectorInQueue this) (rank f)); [lia|].
  now rewrite Hrep.
Qed.

Lemma call_rejects (f : fragment) (this : Selector) :
  accepts (currentSelectorInQueue this) f = false ->
  thrown (call f this) = true /\ snd (call f this) = this.
Proof.
  unfold accepts. intros H. rewrite call_eq.
  destruct (Z.gtb_spec (currentSelectorInQueue this) (rank f)) as [Hgt|Hle].
  - now split.
  - destruct ((currentSelectorInQueue this =? rank f) && nonRepeatable (rank f)) eqn:E.
    + now split.
    + apply Z.leb_le in Hle. rewrite Hle in H. discriminate.
Qed.

Lemma call_normal_inv (f : fragment) (this this' : Selector) :
  call f this = (Normal tt, this') ->
  accepts (currentSelectorInQueue this) f = true /\
  this' = mkSelector (textAfter f (resultSelector this)) (rank f)
                     (errorMessageForRepeat this) (errorMessageForSequence this).
Proof.
  intros H. destruct (accepts (currentSelectorInQueue this) f) eqn:E.
  - rewrite (call_accepts _ _ E) in H. now inversion H.
  - destruct (call_rejects _ _ E) as [Ht _]. rewrite H in Ht. discriminate.
Qed.

Lemma chain_cons (f : fragment) (fs : list fragment) (this : Selector) :
  chain (f :: fs) this =
  match call f this with
  | (Normal _, this') => chain fs this'
  | (Throw msg, this') => (Throw msg, this')
  end.
Proof. reflexivity. Qed.

(** A chain that goes through was admissible from the rank it started at,
    and leaves the rank of its last call. *)
Lemma chain_normal_inv (fs : list fragment) :
  forall this this',
    chain fs this = (Normal tt, this') ->
    admissible (currentSelectorInQueue this) fs = true /\
    currentSelectorInQueue this' = finalRank (currentSelectorInQueue this) fs /\
    errorMessageForRepeat this' = errorMessageForRepeat this /\
    errorMessageForSequence this' = errorMessageForSequence this.
Proof.
  induction fs as [|f fs IH]; intros this this' H.
  - inversion H; subst. now repeat split.
  - rewrite chain_cons in H.
    destruct (call f this) as [[[]|msg] mid] eqn:E; [|discriminate].
    apply call_normal_inv in E as [Hacc ->].
    apply IH in H as (Hadm & Hlast & Hrep & Hseq). cbn in *.
    rewrite Hacc, Hadm. now repeat split.
Qed.

Lemma chain_app (fs1 fs2 : list fragment) :
  forall this,
    chain (fs1 ++ fs2)%list this =
    match chain fs1 this with
    | (Normal _, mid) => chain fs2 mid
    | (Throw msg, mid) => (Throw msg, mid)
    end.
Proof.
  induction fs1 as [|f fs1 IH]; intros this.
  - reflexivity.
  - cbn [app]. rewrite !chain_cons.
    destruct (call f this) as [[[]|msg] mid]; [apply IH | reflexivity].
Qed.

(** From an admissible list the chain goes through; the text is extended
    by the rendered fragments provided no [element] call finds text. *)
Lemma chain_admissible (fs : list fragment) :
  forall this,
    admissible (currentSelectorInQueue this) fs = true ->
    resultSelector this = "" \/ 1 <= currentSelectorInQueue this ->
    exists this',
      chain fs this = (Normal tt, this') /\
      resultSelector this' = (resultSelector this ++ renderAll fs)%string.
Proof.
  induction fs as [|f fs IH]; intros this Hadm Htext.
  - exists this. split; [reflexivity|]. cbn.
    clear. induction (resultSelector this); cbn; congruence.
  - cbn in Hadm. apply andb_true_iff in Hadm as [Hacc Hadm].
    rewrite chain_cons, (call_accepts _ _ Hacc).
    destruct (IH (mkSelector (textAfter f (resultSelector this)) (rank f)
                    (errorMessageForRepeat this) (errorMessageForSequence this)))
      as (this' & Hrun & Hres).
    + exact Hadm.
    + right. cbn. apply rank_range.
    + exists this'. split; [exact Hrun|]. rewrite Hres. cbn.
      rewrite <- append_assoc. f_equal.
      destruct f; try reflexivity. cbn.
      destruct Htext as [-> | Hge]; [reflexivity|].
      unfold accepts in Hacc. cbn in Hacc.
      apply andb_true_iff in Hacc as [Hle Hrep]. apply Z.leb_le in Hle.
      assert (currentSelectorInQueue this = 1) as Heq by lia.
      rewrite Heq in Hrep. discriminate.
Qed.

Lemma nonRepeatable_In (r : Z) : nonRepeatable r = true <-> In r [1; 2; 6].
Proof.
  unfold nonRepeatable. cbn. rewrite !orb_true_iff, !Z.eqb_eq. intuition lia.
Qed.

Lemma accepts_iff (last : Z) (f : fragment) :
  accepts last f = true <->
  last <= rank f /\ ~ (last = rank f /\ In (rank f) [1; 2; 6]).
Proof.
  unfold accepts.
  rewrite andb_true_iff, negb_true_iff, andb_false_iff, Z.leb_le, Z.eqb_neq.
  rewrite <- nonRepeatable_In.
  destruct (nonRepeatable (rank f)); intuition congruence.
Qed.

(** Along an admissible list every rank is at least the starting one, and
    strictly above it when the starting rank cannot repeat. *)
Lemma admissible_bounds (fs : list fragment) :
  forall last,
    admissible last fs = true ->
    Forall (fun f => last <= rank f /\ (In last [1; 2; 6] -> last < rank f)) fs.
Proof.
  induction fs as [|f fs IH]; intros last H; [constructor|].
  cbn in H. apply andb_true_iff in H as [Hacc Hadm].
  apply accepts_iff in Hacc as [Hle Hrep].
  assert (In last [1; 2; 6] -> last < rank f) as Hlt.
  { intros Hin. destruct (Z.eq_dec last (rank f)) as [E|E]; [|lia].
    exfalso. apply Hrep. split; [exact E | now rewrite <- E]. }
  constructor; [now split|].
  eapply Forall_impl; [|exact (IH _ Hadm)].
  cbn beta. intros g [Hg _]. split; [lia|]. intros Hin. specialize (Hlt Hin). lia.
Qed.

Lemma admissible_sorted (fs : list fragment) :
  forall last,
    admissible last fs = true ->
    StronglySorted Z.le (last :: map rank fs).
Proof.
  induction fs as [|f fs IH]; intros last H.
  - repeat constructor.
  - constructor.
    + cbn in H. apply andb_true_iff in H as [_ Hadm]. exact (IH _ Hadm).
    + apply admissible_bounds in H. apply Forall_map.
      eapply Forall_impl; [|exact H]. cbn beta. tauto.
Qed.

Lemma admissible_unique (fs : list fragment) :
  forall last r,
    admissible last fs = true ->
    In r [1; 2; 6] ->
    (count_occ Z.eq_dec (last :: map rank fs) r <= 1)%nat.
Proof.
  induction fs as [|f fs IH]; intros last r H Hr.
  - cbn. destruct (Z.eq_dec last r); lia.
  - destruct (Z.eq_dec last r) as [E|E].
    + rewrite (count_occ_cons_eq _ _ E).
      enough (count_occ Z.eq_dec (map rank (f :: fs)) r = 0)%nat by lia.
      apply count_occ_not_In. intros Hin. apply in_map_iff in Hin as (g & Hg & Hin).
      apply admissible_bounds in H. rewrite Forall_forall in H.
      destruct (H g Hin) as [_ Hlt]. subst r. specialize (Hlt Hr). lia.
    + rewrite (count_occ_cons_neq _ _ E).
      cbn in H. apply andb_true_iff in H as [_ Hadm]. exact (IH _ _ Hadm Hr).
Qed.

(** Non-decreasing ranks with the three unique categories used at most
    once make an admissible list. *)
Lemma sorted_unique_admissible (fs : list fragment) :
  forall last,
    Sorted Z.le (last :: map rank fs) ->
    (forall r, In r [1; 2; 6] ->
               (count_occ Z.eq_dec (last :: map rank fs) r <= 1)%nat) ->
    admissible last fs = true.
Proof.
  induction fs as [|f fs IH]; intros last Hs Hc; [reflexivity|].
  cbn [admissible]. apply andb_true_iff.
  apply Sorted_inv in Hs as [Hs Hhd]. apply HdRel_inv in Hhd.
  split.
  - apply accepts_iff. split; [exact Hhd|]. intros [E Hin].
    specialize (Hc _ Hin). cbn in Hc.
    destruct (Z.eq_dec last (rank f)); [|contradiction].
    destruct (Z.eq_dec (rank f) (rank f)); [lia | contradiction].
  - apply IH; [exact Hs|]. intros r Hr. specialize (Hc _ Hr).
    cbn in Hc |- *. destruct (Z.eq_dec last r); lia.
Qed.

Lemma call_sequence (f : fragment) (this : Selector) :
  currentSelectorInQueue this > rank f ->
  call f this = (Throw (errorMessageForSequence this), this).
Proof.
  intros H. rewrite call_eq.
  destruct (Z.gtb_spec (currentSelectorInQueue this) (rank f)); [reflexivity | lia].
Qed.

Lemma call_repeat (f : fragment) (this : Selector) :
  currentSelectorInQueue this = rank f ->
  In (rank f) [1; 2; 6] ->
  call f this = (Throw (errorMessageForRepeat this), this).
Proof.
  intros E Hin. rewrite call_eq.
  destruct (Z.gtb_spec (currentSelectorInQueue this) (rank f)); [lia|].
  apply Z.eqb_eq in E. apply nonRepeatable_In in Hin. now rewrite E, Hin.
Qed.

(** The two messages of a builder are those of the constructor, and differ. *)
Lemma new_Selector_messages_differ :
  errorMessageForRepeat new_Selector <> errorMessageForSequence new_Selector.
Proof. discriminate. Qed.

Lemma finalRank_nonempty (fs : list fragment) :
  forall last, fs <> [] -> exists g, In g fs /\ finalRank last fs = rank g.
Proof.
  induction fs as [|f fs IH]; intros last H; [contradiction|].
  destruct fs as [|f' fs'].
  - exists f. split; [now left | reflexivity].
  - destruct (IH (rank f)) as (g & Hin & Hg); [discriminate|].
    exists g. split; [now right | exact Hg].
Qed.

Lemma chain_repeat_completed (f : fragment) (n : nat) :
  In (rank f) [3; 4; 5] ->
  forall this,
    currentSelectorInQueue this <= rank f ->
    completed (chain (repeat f n) this) = true.
Proof.
  intros Hr. induction n as [|n IH]; intros this Hle; [reflexivity|].
  cbn [repeat]. rewrite chain_cons, call_accepts.
  - apply IH. cbn. lia.
  - apply accepts_iff. split; [exact Hle|]. intros [_ Hin].
    cbn in Hr, Hin. lia.
Qed.

End SelectorFacts.

(* ------------------------------------------------------------------ *)
(** * The claims about the selector builder *)

Import Selector Fragment.

(** [C1], as stated, at [element] on a builder made by [combine]: the call
    is neither a sequence nor a repeat violation, and it goes through, but
    the text it leaves is the value alone and not the old text followed by
    it. *)
Lemma element_on_combined_not_appended :
  ~ (currentSelectorInQueue div_plus_p > rank (Element "a")) /\
  ~ (currentSelectorInQueue div_plus_p = rank (Element "a") /\
     In (rank (Element "a")) [1; 2; 6]) /\
  stringify div_plus_p = "div + p" /\
  call (Element "a") div_plus_p =
    (Normal tt, mkSelector "a" 1 (errorMessageForRepeat new_Selector)
                           (errorMessageForSequence new_Selector)) /\
  stringify (snd (call (Element "a") div_plus_p))
    <> (stringify div_plus_p ++ render (Element "a"))%string.
Proof.
  split; [cbn; lia|].
  split; [cbn; intros [H _]; discriminate|].
  split; [reflexivity|].
  split; [reflexivity|].
  cbn. discriminate.
Qed.

(** [C1] (amended) A fragment call with rank [r] on a builder whose last
    rank is [lastRank] throws the sequence error when [lastRank > r], throws
    the repeat error when [lastRank = r] and [r] is 1, 2 or 6, and otherwise
    completes with last rank [r]; the text is then the old text followed by
    the rendered fragment for id, class, attr, pseudoClass and
    pseudoElement, and the value alone for element, which is the same thing
    when the old text is empty. A throwing call leaves the builder as it
    was. *)
Theorem fragment_call_outcome (f : fragment) (this : Selector) :
  (currentSelectorInQueue this > rank f ->
   call f this = (Throw (errorMessageForSequence this), this)) /\
  (currentSelectorInQueue this = rank f -> In (rank f) [1; 2; 6] ->
   call f this = (Throw (errorMessageForRepeat this), this)) /\
  (currentSelectorInQueue this <= rank f ->
   ~ (currentSelectorInQueue this = rank f /\ In (rank f) [1; 2; 6]) ->
   exists this',
     call f this = (Normal tt, this') /\
     currentSelectorInQueue this' = rank f /\
     errorMessageForRepeat this' = errorMessageForRepeat this /\
     errorMessageForSequence this' = errorMessageForSequence this /\
     resultSelector this' =
       match f with
       | Element v => v
       | _ => (resultSelector this ++ render f)%string
       end /\
     (resultSelector this = "" ->
      resultSelector this' = (resultSelector this ++ render f)%string)).
Proof.
  repeat split.
  - apply call_sequence.
  - apply call_repeat.
  - intros Hle Hrep. eexists. split.
    + apply call_accepts, accepts_iff. now split.
    + cbn. repeat split. intros ->. now destruct f.
Qed.

Lemma fragment_call_outcome_witness :
  call (Id "main") (snd (cssSelectorBuilder.class "container")) =
    (Throw (errorMessageForSequence new_Selector),
     snd (cssSelectorBuilder.class "container")) /\
  call (Id "other") (snd (cssSelectorBuilder.id "main")) =
    (Throw (errorMessageForRepeat new_Selector), snd (cssSelectorBuilder.id "main")) /\
  exists this',
    call (Class "editable") (snd (cssSelectorBuilder.class "container")) =
      (Normal tt, this') /\
    resultSelector this' = ".container.editable".
Proof.
  split; [|split].
  - apply (proj1 (fragment_call_outcome (Id "main")
                    (snd (cssSelectorBuilder.class "container")))).
    cbn. lia.
  - apply (proj1 (proj2 (fragment_call_outcome (Id "other")
                           (snd (cssSelectorBuilder.id "main"))))).
    + reflexivity.
    + cbn. tauto.
  - destruct (proj2 (proj2 (fragment_call_outcome (Class "editable")
                              (snd (cssSelectorBuilder.class "container")))))
      as (this' & Hcall & _ & _ & _ & Htext & _).
    + cbn. lia.
    + cbn. intros [_ H]. lia.
    + exists this'. split; [exact Hcall | exact Htext].
Defined.

(** [C2] A chain of fragment calls on a fresh builder whose ranks never
    decrease and in which ranks 1, 2 and 6 occur at most once each raises
    nothing, and [stringify()] then returns the rendered fragments
    concatenated in call order with nothing in between. *)
Theorem ordered_chain_stringify (fs : list fragment) :
  Sorted Z.le (map rank fs) ->
  (count_occ Z.eq_dec (map rank fs) 1%Z <= 1)%nat ->
  (count_occ Z.eq_dec (map rank fs) 2%Z <= 1)%nat ->
  (count_occ Z.eq_dec (map rank fs) 6%Z <= 1)%nat ->
  exists this',
    chain fs new_Selector = (Normal tt, this') /\
    stringify this' = renderAll fs.
Proof.
  intros Hs H1 H2 H6.
  destruct (chain_admissible fs new_Selector) as (this' & Hrun & Htext).
  - apply sorted_unique_admissible.
    + constructor; [exact Hs|]. destruct fs as [|f fs]; constructor.
      cbn. pose proof (rank_range f). lia.
    + intros r Hr. cbn [currentSelectorInQueue new_Selector].
      rewrite count_occ_cons_neq by (cbn in Hr; lia).
      cbn in Hr. destruct Hr as [<-|[<-|[<-|[]]]]; assumption.
  - now left.
  - exists this'. split; [exact Hrun | exact Htext].
Qed.

Lemma ordered_chain_stringify_witness :
  exists this',
    chain [Element "div"; Id "main"; Class "container"; Class "draggable";
           Attr "href"; PseudoClass "focus"; PseudoElement "after"]
          new_Selector = (Normal tt, this') /\
    stringify this' = "div#main.container.draggable[href]:focus::after".
Proof.
  apply (ordered_chain_stringify
           [Element "div"; Id "main"; Class "container"; Class "draggable";
            Attr "href"; PseudoClass "focus"; PseudoElement "after"]).
  - cbn. repeat constructor; lia.
  - cbn. lia.
  - cbn. lia.
  - cbn. lia.
Defined.

(** [C3] [combine(A, c, B)], through the facade or on any receiver,
    completes for every combinator string and leaves a builder whose
    [stringify()] is [stringify(A)], a space, [c], a space, [stringify(B)]. *)
Theorem combine_stringify (A B : Selector) (c : string) :
  completed (cssSelectorBuilder.combine A c B) = true /\
  stringify (snd (cssSelectorBuilder.combine A c B)) =
    (stringify A ++ " " ++ c ++ " " ++ stringify B)%string /\
  forall this,
    completed (combine A c B this) = true /\
    stringify (snd (combine A c B this)) =
      (stringify A ++ " " ++ c ++ " " ++ stringify B)%string.
Proof. repeat split. Qed.

(** [C4] Whenever a chain of fragment calls on one builder goes through,
    the ranks appended, preceded by the rank the builder had, are sorted:
    no later call appended a rank below an earlier one; and each of the
    ranks 1, 2 and 6 occurs at most once among them. Class, attribute and
    pseudo-class calls can be repeated any number of times. *)
Theorem successful_chain_invariant :
  (forall fs this this',
      chain fs this = (Normal tt, this') ->
      StronglySorted Z.le (currentSelectorInQueue this :: map rank fs) /\
      forall r, In r [1; 2; 6] ->
        (count_occ Z.eq_dec (currentSelectorInQueue this :: map rank fs) r <= 1)%nat) /\
  (forall n v this, currentSelectorInQueue this <= 3 ->
      completed (chain (repeat (Class v) n) this) = true) /\
  (forall n v this, currentSelectorInQueue this <= 4 ->
      completed (chain (repeat (Attr v) n) this) = true) /\
  (forall n v this, currentSelectorInQueue this <= 5 ->
      completed (chain (repeat (PseudoClass v) n) this) = true).
Proof.
  split; [|repeat split].
  - intros fs this this' H.
    apply chain_normal_inv in H as (Hadm & _).
    split; [now apply admissible_sorted|].
    intros r Hr. now apply admissible_unique.
  - intros n v this H. apply chain_repeat_completed; [cbn; tauto | exact H].
  - intros n v this H. apply chain_repeat_completed; [cbn; tauto | exact H].
  - intros n v this H. apply chain_repeat_completed; [cbn; tauto | exact H].
Qed.

Lemma successful_chain_invariant_witness :
  StronglySorted Z.le
    (0%Z :: map rank [Id "main"; Class "container"; Class "editable"]) /\
  (forall r, In r [1; 2; 6] ->
     (count_occ Z.eq_dec
        (0%Z :: map rank [Id "main"; Class "container"; Class "editable"]) r <= 1)%nat) /\
  completed (chain (repeat (Class "c") 4) (snd (cssSelectorBuilder.id "main"))) = true.
Proof.
  split; [|split].
  - apply (proj1 successful_chain_invariant
             [Id "main"; Class "container"; Class "editable"] new_Selector
             (mkSelector "#main.container.editable" 3
                         (errorMessageForRepeat new_Selector)
                         (errorMessageForSequence new_Selector))).
    reflexivity.
  - apply (proj1 successful_chain_invariant
             [Id "main"; Class "container"; Class "editable"] new_Selector
             (mkSelector "#main.container.editable" 3
                         (errorMessageForRepeat new_Selector)
                         (errorMessageForSequence new_Selector))).
    reflexivity.
  - apply (proj1 (proj2 successful_chain_invariant)). cbn. lia.
Defined.

(** [C5], as stated, at [id('main').class('container').id('other')]: the
    second [id] is a second append of a non-repeatable category, yet the
    error it raises carries the sequence message, which is not the repeat
    message. *)
Lemma second_id_after_class_is_sequence_error :
  chain [Id "main"; Class "container"] new_Selector =
    (Normal tt, mkSelector "#main.container" 3
                           (errorMessageForRepeat new_Selector)
                           (errorMessageForSequence new_Selector)) /\
  fst (chain [Id "main"; Class "container"; Id "other"] new_Selector) =
    Throw (errorMessageForSequence new_Selector) /\
  fst (chain [Id "main"; Class "container"; Id "other"] new_Selector) <>
    Throw (errorMessageForRepeat new_Selector).
Proof.
  split; [reflexivity|]. split; [reflexivity|]. cbn. discriminate.
Qed.

(** [C5] (amended) After a chain that appended a fragment of a
    non-repeatable category (element, id or pseudo-element) went through, a
    further call of the same category throws and leaves the builder as it
    was: it throws the repeat error when no fragment was appended after the
    first one, and the sequence error when at least one was (any such
    fragment has a higher rank). *)
Theorem repeated_category_rejected
        (fs1 : list fragment) (f : fragment) (fs2 : list fragment) (g : fragment)
        (this this' : Selector) :
  In (rank f) [1; 2; 6] ->
  rank g = rank f ->
  chain (fs1 ++ f :: fs2)%list this = (Normal tt, this') ->
  (fs2 = [] -> call g this' = (Throw (errorMessageForRepeat this'), this')) /\
  (fs2 <> [] -> call g this' = (Throw (errorMessageForSequence this'), this')).
Proof.
  intros Hin Hg Hrun. rewrite chain_app in Hrun.
  destruct (chain fs1 this) as [[[]|msg] mid0]; [|discriminate].
  rewrite chain_cons in Hrun.
  destruct (call f mid0) as [[[]|msg] mid] eqn:Ef; [|discriminate].
  apply call_normal_inv in Ef as [_ ->].
  apply chain_normal_inv in Hrun as (Hadm & Hlast & _ & _).
  cbn [currentSelectorInQueue] in Hadm, Hlast.
  split.
  - intros ->. cbn in Hlast.
    apply call_repeat; [congruence | now rewrite Hg].
  - intros Hne.
    apply call_sequence.
    destruct (finalRank_nonempty fs2 (rank f) Hne) as (x & Hx & Hfin).
    apply admissible_bounds in Hadm. rewrite Forall_forall in Hadm.
    destruct (Hadm x Hx) as [_ Hlt]. specialize (Hlt Hin). lia.
Qed.

Lemma repeated_category_rejected_witness :
  call (Element "span") (snd (cssSelectorBuilder.element "div")) =
    (Throw (errorMessageForRepeat new_Selector),
     snd (cssSelectorBuilder.element "div")) /\
  call (Id "other") (snd (chain [Id "main"; Class "container"] new_Selector)) =
    (Throw (errorMessageForSequence new_Selector),
     snd (chain [Id "main"; Class "container"] new_Selector)).
Proof.
  split.
  - destruct (repeated_category_rejected [] (Element "div") [] (Element "span")
                new_Selector (snd (cssSelectorBuilder.element "div")))
      as [Hrep _].
    + cbn. tauto.
    + reflexivity.
    + reflexivity.
    + apply Hrep. reflexivity.
  - destruct (repeated_category_rejected [] (Id "main") [Class "container"]
                (Id "other") new_Selector
                (snd (chain [Id "main"; Class "container"] new_Selector)))
      as [_ Hseq].
    + cbn. tauto.
    + reflexivity.
    + reflexivity.
    + apply Hseq. discriminate.
Defined.

(** [C6], as stated, at [class('odd')] on the builder that
    [combine(element('tr'), ' ', element('td'))] returns: the call does not
    fail, it extends the combined text. *)
Lemma class_on_combined_completes :
  stringify tr_td = "tr   td" /\
  completed (call (Class "odd") tr_td) = true /\
  stringify (snd (call (Class "odd") tr_td)) = "tr   td.odd".
Proof. repeat split. Qed.

(** [C6] (amended) The builder the facade's [combine] returns has last rank
    0 and rejects nothing: every fragment call on it completes and stores
    the call's rank; id, class, attr, pseudoClass and pseudoElement extend
    the combined text by the rendered fragment, and element replaces the
    combined text by its value. *)
Theorem combined_builder_accepts_fragments
        (A B : Selector) (c : string) (f : fragment) :
  currentSelectorInQueue (snd (cssSelectorBuilder.combine A c B)) = 0 /\
  exists this',
    call f (snd (cssSelectorBuilder.combine A c B)) = (Normal tt, this') /\
    currentSelectorInQueue this' = rank f /\
    stringify this' =
      match f with
      | Element v => v
      | _ => (stringify A ++ " " ++ c ++ " " ++ stringify B ++ render f)%string
      end.
Proof.
  split; [reflexivity|]. eexists. split.
  - apply call_accepts, accepts_iff. cbn [cssSelectorBuilder.combine combine assign
      snd set_resultSelector currentSelectorInQueue new_Selector].
    pose proof (rank_range f). split; [lia|]. intros [E _]. lia.
  - split; [reflexivity|].
    destruct f; try reflexivity;
      cbn; unfold stringify; repeat (rewrite append_assoc; cbn); reflexivity.
Qed.

(** [C7], as stated, at [element('span')] on the builder that
    [combine(id('main'), '>', class('item'))] returns: the call is not the
    first one on that builder and it goes through, but the text it leaves
    is the value alone, not the existing text followed by the value. *)
Lemma element_on_combined_overwrites :
  stringify main_child_item = "#main > .item" /\
  completed (element "span" main_child_item) = true /\
  stringify (snd (element "span" main_child_item)) = "span" /\
  stringify (snd (element "span" main_child_item))
    <> (stringify main_child_item ++ "span")%string.
Proof.
  split; [reflexivity|]. split; [reflexivity|]. split; [reflexivity|].
  cbn. discriminate.
Qed.

(** [C7] (amended) [element(value)] on a builder whose last rank is below 1
    completes, sets the last rank to 1 and sets the text to [value] alone,
    with no prefix and whatever the text was before; on a fresh builder
    that is the old (empty) text followed by [value]. On a builder whose
    last rank is 1 it throws the repeat error, on one whose last rank is
    above 1 the sequence error, and then changes nothing. *)
Theorem element_outcome (value : string) (this : Selector) :
  (currentSelectorInQueue this < 1 ->
   element value this =
     (Normal tt, mkSelector value 1 (errorMessageForRepeat this)
                            (errorMessageForSequence this))) /\
  (currentSelectorInQueue this = 1 ->
   element value this = (Throw (errorMessageForRepeat this), this)) /\
  (currentSelectorInQueue this > 1 ->
   element value this = (Throw (errorMessageForSequence this), this)) /\
  stringify (snd (cssSelectorBuilder.element value)) = value /\
  stringify (snd (cssSelectorBuilder.element value)) =
    (stringify new_Selector ++ value)%string.
Proof.
  change (element value this) with (call (Element value) this).
  rewrite call_eq. cbn [rank textAfter].
  destruct (Z.gtb_spec (currentSelectorInQueue this) 1) as [Hgt|Hle];
    [|destruct (Z.eqb_spec (currentSelectorInQueue this) 1) as [E|E]];
    cbn [andb nonRepeatable Z.eqb orb];
    (split; [intros; try lia; reflexivity|]);
    (split; [intros; try lia; reflexivity|]);
    (split; [intros; try lia; reflexivity|]);
    split; reflexivity.
Qed.

Lemma element_outcome_witness :
  element "div" new_Selector =
    (Normal tt, mkSelector "div" 1 (errorMessageForRepeat new_Selector)
                           (errorMessageForSequence new_Selector)) /\
  element "div" (snd (cssSelectorBuilder.element "p")) =
    (Throw (errorMessageForRepeat new_Selector), snd (cssSelectorBuilder.element "p")) /\
  element "div" (snd (cssSelectorBuilder.id "main")) =
    (Throw (errorMessageForSequence new_Selector), snd (cssSelectorBuilder.id "main")).
Proof.
  split; [|split].
  - apply (proj1 (element_outcome "div" new_Selector)). cbn. lia.
  - apply (proj1 (proj2 (element_outcome "div" (snd (cssSelectorBuilder.element "p"))))).
    reflexivity.
  - apply (proj1 (proj2 (proj2 (element_outcome "div"
                                  (snd (cssSelectorBuilder.id "main")))))).
    cbn. lia.
Defined.

(** [C8] When a fragment call throws, the builder is left exactly as it
    was before the call: same text, same last rank. *)
Theorem failed_call_leaves_builder (f : fragment) (this : Selector) :
  thrown (call f this) = true ->
  snd (call f this) = this /\
  resultSelector (snd (call f this)) = resultSelector this /\
  currentSelectorInQueue (snd (call f this)) = currentSelectorInQueue this.
Proof.
  intros H.
  assert (snd (call f this) = this) as E.
  { destruct (accepts (currentSelectorInQueue this) f) eqn:Hacc.
    - rewrite (call_accepts _ _ Hacc) in H. discriminate.
    - now apply call_rejects. }
  now rewrite E.
Qed.

Lemma failed_call_leaves_builder_witness :
  snd (call (Element "div") (snd (cssSelectorBuilder.pseudoElement "after"))) =
    snd (cssSelectorBuilder.pseudoElement "after") /\
  resultSelector (snd (call (Element "div")
                         (snd (cssSelectorBuilder.pseudoElement "after")))) =
    resultSelector (snd (cssSelectorBuilder.pseudoElement "after")) /\
  currentSelectorInQueue (snd (call (Element "div")
                         (snd (cssSelectorBuilder.pseudoElement "after")))) =
    currentSelectorInQueue (snd (cssSelectorBuilder.pseudoElement "after")).
Proof.
  apply (failed_call_leaves_builder (Element "div")
           (snd (cssSelectorBuilder.pseudoElement "after"))).
  reflexivity.
Defined.

(* ------------------------------------------------------------------ *)
(** * The claims about Rectangle and the JSON pair *)

(** [C9] The rectangle constructor stores its two arguments in [width] and
    [height], and [getArea()] returns their product; constructing with
    (10, 20) gives width 10, height 20 and area 200. *)
Theorem Rectangle_fields_and_area :
  (forall w h : float,
      Rectangle.width (Rectangle.new_Rectangle w h) = w /\
      Rectangle.height (Rectangle.new_Rectangle w h) = h /\
      Rectangle.getArea (Rectangle.new_Rectangle w h) = PrimFloat.mul w h) /\
  Rectangle.width (Rectangle.new_Rectangle 10 20) = 10%float /\
  Rectangle.height (Rectangle.new_Rectangle 10 20) = 20%float /\
  Rectangle.getArea (Rectangle.new_Rectangle 10 20) = 200%float.
Proof.
  split; [intros w h; repeat split | repeat split].
Qed.


Import JSON Tasks.

(** [C10] Serializing [{height: 10, width: 20}] with [getJSON] and handing
    the text to [fromJSON] with a shape whose constructor takes (height,
    width) in that order gives an object whose [height] and [width] are
    those of the original. *)
Theorem height_width_round_trip :
  exists json obj,
    getJSON height10_width20 = Some json /\
    json = ("{" ++ quote "height" ++ ":10," ++ quote "width" ++ ":20}")%string /\
    fromJSON HeightWidth json = Some obj /\
    get "height" obj = get "height" height10_width20 /\
    get "width" obj = get "width" height10_width20 /\
    get "height" obj = Number 10 /\
    get "width" obj = Number 20.
Proof.
  eexists. eexists.
  split; [reflexivity|].
  split; [reflexivity|].
  split; [vm_compute; reflexivity|].
  repeat split.
Qed.

(** With a shape whose constructor takes (width, height) instead, the same
    text gives an object with the two values exchanged: the values are
    handed over in the order of the keys in the text. *)
Example width_height_shape_exchanges :
  exists json obj,
    getJSON height10_width20 = Some json /\
    fromJSON WidthHeight json = Some obj /\
    get "height" obj = Number 20 /\
    get "width" obj = Number 10.
Proof.
  eexists. eexists.
  split; [reflexivity|].
  split; [vm_compute; reflexivity|].
  split; reflexivity.
Qed.

(* ------------------------------------------------------------------ *)
(** * Further properties of the selector builder *)

Import Usage.

(** A facade entry never throws: it returns a builder whose text is the
    rendered fragment and whose last rank is the fragment's. *)
Theorem facade_entry_starts_selector (f : fragment) :
  facade f =
    (Normal tt, mkSelector (render f) (rank f)
                           (errorMessageForRepeat new_Selector)
                           (errorMessageForSequence new_Selector)).
Proof. destruct f; reflexivity. Qed.

(** The facade's [checkSelectorsQueue] runs on a new builder: it throws
    the sequence error for a negative rank and returns for every other one;
    the repeat error cannot come out of it. *)
Theorem facade_check_never_repeat (n : Z) :
  cssSelectorBuilder.checkSelectorsQueue n =
    ((if n <? 0 then Throw (errorMessageForSequence new_Selector) else Normal tt),
     new_Selector) /\
  fst (cssSelectorBuilder.checkSelectorsQueue n)
    <> Throw (errorMessageForRepeat new_Selector).
Proof.
  assert (cssSelectorBuilder.checkSelectorsQueue n =
    ((if n <? 0 then Throw (errorMessageForSequence new_Selector) else Normal tt),
     new_Selector)) as E.
  { unfold cssSelectorBuilder.checkSelectorsQueue, checkSelectorsQueue, bind, read,
      throw, ret. cbn [currentSelectorInQueue new_Selector].
    destruct (Z.gtb_spec 0 n) as [Hneg|Hpos], (Z.ltb_spec n 0); try lia.
    - reflexivity.
    - destruct (Z.eqb_spec 0 n) as [<-|Hne]; reflexivity. }
  split; [exact E|]. rewrite E. cbn [fst].
  destruct (n <? 0); discriminate.
Qed.

Lemma completed_normal (r : completion unit * Selector) :
  completed r = true -> r = (Normal tt, snd r).
Proof. destruct r as [[[]|msg] s]; [reflexivity | discriminate]. Qed.

(** The text a chain leaves on any builder once admissible. *)
Lemma chain_admissible_text (fs : list fragment) (this : Selector) :
  admissible (currentSelectorInQueue this) fs = true ->
  exists this',
    chain fs this = (Normal tt, this') /\
    resultSelector this' =
      ((match fs with
        | Element _ :: _ => ""
        | _ => resultSelector this
        end) ++ renderAll fs)%string.
Proof.
  destruct fs as [|f fs]; intros Hadm.
  - exists this. split; [reflexivity|]. cbn.
    induction (resultSelector this); cbn; congruence.
  - cbn in Hadm. apply andb_true_iff in Hadm as [Hacc Hadm].
    rewrite chain_cons, (call_accepts _ _ Hacc).
    destruct (chain_admissible fs
                (mkSelector (textAfter f (resultSelector this)) (rank f)
                   (errorMessageForRepeat this) (errorMessageForSequence this)))
      as (this' & Hrun & Htext).
    + exact Hadm.
    + right. cbn. apply rank_range.
    + exists this'. split; [exact Hrun|]. rewrite Htext. cbn [resultSelector renderAll].
      destruct f; cbn [textAfter]; try reflexivity; now rewrite append_assoc.
Qed.

Lemma call_throw_inv (f : fragment) (this final : Selector) (msg : string) :
  call f this = (Throw msg, final) ->
  final = this /\
  (msg = errorMessageForSequence this \/ msg = errorMessageForRepeat this).
Proof.
  rewrite call_eq.
  destruct (currentSelectorInQueue this >? rank f).
  - intros H; inversion H; subst. split; [reflexivity | now left].
  - destruct ((currentSelectorInQueue this =? rank f) && nonRepeatable (rank f)).
    + intros H; inversion H; subst. split; [reflexivity | now right].
    + discriminate.
Qed.

(** A chain of fragment calls on any builder goes through exactly when the
    ranks, preceded by the builder's last rank, never decrease and hold
    each of 1, 2 and 6 at most once. *)
Theorem chain_completes_iff (fs : list fragment) (this : Selector) :
  completed (chain fs this) = true <->
  Sorted Z.le (currentSelectorInQueue this :: map rank fs) /\
  (forall r, In r [1; 2; 6] ->
     (count_occ Z.eq_dec (currentSelectorInQueue this :: map rank fs) r <= 1)%nat).
Proof.
  split.
  - intros H. apply completed_normal in H.
    apply chain_normal_inv in H as (Hadm & _). split.
    + apply StronglySorted_Sorted. now apply admissible_sorted.
    + intros r Hr. now apply admissible_unique.
  - intros [Hs Hc].
    destruct (chain_admissible_text fs this) as (this' & Hrun & _).
    + now apply sorted_unique_admissible.
    + now rewrite Hrun.
Qed.

(** When a chain throws, the builder is what the calls before the
    offending one made of it, the exception is the one that call throws on
    that builder, and its message is one of the builder's two messages. *)
Theorem chain_throw_keeps_prefix
        (fs : list fragment) (this final : Selector) (msg : string) :
  chain fs this = (Throw msg, final) ->
  exists fs1 g fs2,
    fs = (fs1 ++ g :: fs2)%list /\
    chain fs1 this = (Normal tt, final) /\
    call g final = (Throw msg, final) /\
    (msg = errorMessageForSequence this \/ msg = errorMessageForRepeat this).
Proof.
  revert this. induction fs as [|f fs IH]; intros this H; [discriminate|].
  rewrite chain_cons in H.
  destruct (accepts (currentSelectorInQueue this) f) eqn:Hacc.
  - pose proof (call_accepts _ _ Hacc) as Hcall. rewrite Hcall in H.
    apply IH in H as (fs1 & g & fs2 & -> & Hpre & Hg & Hmsg).
    exists (f :: fs1), g, fs2. split; [reflexivity|].
    split; [now rewrite chain_cons, Hcall|]. split; [exact Hg | exact Hmsg].
  - destruct (call f this) as [[[]|m] s] eqn:E.
    + destruct (call_rejects _ _ Hacc) as [Ht _]. rewrite E in Ht. discriminate.
    + inversion H; subst m s.
      destruct (call_throw_inv _ _ _ _ E) as [-> Hmsg].
      exists [], f, fs. now repeat split.
Qed.

Lemma chain_throw_keeps_prefix_witness :
  exists fs1 g fs2,
    [Element "a"; Class "b"; Id "c"; Attr "d"] = (fs1 ++ g :: fs2)%list /\
    chain fs1 new_Selector =
      (Normal tt, mkSelector "a.b" 3 (errorMessageForRepeat new_Selector)
                             (errorMessageForSequence new_Selector)) /\
    call g (mkSelector "a.b" 3 (errorMessageForRepeat new_Selector)
                       (errorMessageForSequence new_Selector)) =
      (Throw (errorMessageForSequence new_Selector),
       mkSelector "a.b" 3 (errorMessageForRepeat new_Selector)
                  (errorMessageForSequence new_Selector)) /\
    (errorMessageForSequence new_Selector = errorMessageForSequence new_Selector \/
     errorMessageForSequence new_Selector = errorMessageForRepeat new_Selector).
Proof.
  apply (chain_throw_keeps_prefix [Element "a"; Class "b"; Id "c"; Attr "d"]
           new_Selector).
  reflexivity.
Defined.

Lemma last_cons_default (a : Z) (l : list Z) (d d' : Z) :
  last (a :: l) d = last (a :: l) d'.
Proof.
  revert a. induction l as [|b l IH]; intros a; [reflexivity|].
  change (last (b :: l) d = last (b :: l) d'). apply IH.
Qed.

Lemma finalRank_last (fs : list fragment) :
  forall k, finalRank k fs = last (map rank fs) k.
Proof.
  induction fs as [|f fs IH]; intros k; [reflexivity|].
  cbn [finalRank map]. rewrite IH. destruct fs as [|g fs]; [reflexivity|].
  cbn [map]. rewrite (last_cons_default (rank g) (map rank fs) (rank f) k).
  reflexivity.
Qed.

(** On any builder, a chain that went through leaves the old text followed
    by the rendered fragments, except that a leading [element] drops the old
    text; the last rank is that of the last call and the two messages are
    untouched. *)
Theorem chain_text_on_any_builder
        (fs : list fragment) (this this' : Selector) :
  chain fs this = (Normal tt, this') ->
  resultSelector this' =
    ((match fs with
      | Element _ :: _ => ""
      | _ => resultSelector this
      end) ++ renderAll fs)%string /\
  currentSelectorInQueue this' =
    last (map rank fs) (currentSelectorInQueue this) /\
  errorMessageForRepeat this' = errorMessageForRepeat this /\
  errorMessageForSequence this' = errorMessageForSequence this.
Proof.
  intros H. pose proof (chain_normal_inv _ _ _ H) as (Hadm & Hlast & Hrep & Hseq).
  destruct (chain_admissible_text fs this Hadm) as (this'' & Hrun & Htext).
  rewrite H in Hrun. inversion Hrun; subst this''.
  repeat split; try assumption.
  rewrite Hlast. apply finalRank_last.
Qed.

Lemma chain_text_on_any_builder_witness :
  resultSelector
    (mkSelector "tr   td.odd:hover" 5 (errorMessageForRepeat new_Selector)
                (errorMessageForSequence new_Selector)) =
    ((match [Class "odd"; PseudoClass "hover"] with
      | Element _ :: _ => ""
      | _ => resultSelector tr_td
      end) ++ renderAll [Class "odd"; PseudoClass "hover"])%string /\
  5 = last (map rank [Class "odd"; PseudoClass "hover"])
           (currentSelectorInQueue tr_td) /\
  errorMessageForRepeat new_Selector = errorMessageForRepeat tr_td /\
  errorMessageForSequence new_Selector = errorMessageForSequence tr_td.
Proof.
  apply (chain_text_on_any_builder [Class "odd"; PseudoClass "hover"] tr_td
           (mkSelector "tr   td.odd:hover" 5 (errorMessageForRepeat new_Selector)
                       (errorMessageForSequence new_Selector))).
  reflexivity.
Defined.

(** Every builder a program can get hold of has a last rank between 0 and
    6 and carries the two messages the constructor gave it, which differ:
    the two kinds of error can always be told apart. *)
Theorem reachable_invariant (this : Selector) :
  reachable this ->
  0 <= currentSelectorInQueue this <= 6 /\
  errorMessageForRepeat this = errorMessageForRepeat new_Selector /\
  errorMessageForSequence this = errorMessageForSequence new_Selector /\
  errorMessageForRepeat this <> errorMessageForSequence this.
Proof.
  intros H.
  enough (0 <= currentSelectorInQueue this <= 6 /\
          errorMessageForRepeat this = errorMessageForRepeat new_Selector /\
          errorMessageForSequence this = errorMessageForSequence new_Selector)
    as (Hr & Hrep & Hseq).
  { repeat split; try assumption; try lia.
    rewrite Hrep, Hseq. exact new_Selector_messages_differ. }
  induction H as [|f this _ IH|A B c this _ _ _ _ _ IH].
  - cbn. repeat split; lia.
  - destruct (accepts (currentSelectorInQueue this) f) eqn:Hacc.
    + rewrite (call_accepts _ _ Hacc). cbn [snd currentSelectorInQueue
        errorMessageForRepeat errorMessageForSequence].
      pose proof (rank_range f). destruct IH as (_ & Hrep & Hseq).
      repeat split; try assumption; lia.
    + destruct (call_rejects _ _ Hacc) as [_ ->]. exact IH.
  - exact IH.
Qed.

Lemma reachable_invariant_witness :
  0 <= currentSelectorInQueue tr_td <= 6 /\
  errorMessageForRepeat tr_td = errorMessageForRepeat new_Selector /\
  errorMessageForSequence tr_td = errorMessageForSequence new_Selector /\
  errorMessageForRepeat tr_td <> errorMessageForSequence tr_td.
Proof.
  apply (reachable_invariant tr_td).
  apply (reach_combine (snd (call (Element "tr") new_Selector))
                       (snd (call (Element "td") new_Selector)) " " new_Selector).
  - apply reach_call, reach_new.
  - apply reach_call, reach_new.
  - apply reach_new.
Defined.

(** Nesting [combine] on the left or on the right gives the same text: the
    three rendered selectors with the two combinators between them, each
    combinator between single spaces. *)
Theorem combine_text_associative (A B C : Selector) (c1 c2 : string) :
  stringify (snd (cssSelectorBuilder.combine
                    (snd (cssSelectorBuilder.combine A c1 B)) c2 C)) =
  stringify (snd (cssSelectorBuilder.combine
                    A c1 (snd (cssSelectorBuilder.combine B c2 C)))) /\
  stringify (snd (cssSelectorBuilder.combine
                    A c1 (snd (cssSelectorBuilder.combine B c2 C)))) =
    (stringify A ++ " " ++ c1 ++ " " ++ stringify B
       ++ " " ++ c2 ++ " " ++ stringify C)%string.
Proof.
  split; [|reflexivity].
  cbn. unfold stringify. repeat (rewrite append_assoc; cbn). reflexivity.
Qed.

(** [combine] called on a builder that is already in use replaces its text
    and leaves its last rank: the next fragment call is accepted or
    rejected, with the same error, exactly as it would have been without
    the [combine]. *)
Theorem combine_keeps_order_state
        (A B : Selector) (c : string) (this : Selector) (f : fragment) :
  currentSelectorInQueue (snd (combine A c B this)) = currentSelectorInQueue this /\
  fst (call f (snd (combine A c B this))) = fst (call f this).
Proof.
  split; [reflexivity|].
  rewrite !call_eq.
  cbn [combine assign snd set_resultSelector currentSelectorInQueue
       errorMessageForRepeat errorMessageForSequence].
  destruct (currentSelectorInQueue this >? rank f); [reflexivity|].
  destruct ((currentSelectorInQueue this =? rank f) && nonRepeatable (rank f));
    reflexivity.
Qed.

(** A caller that catches every exception and keeps calling ends with the
    builder that the accepted calls alone would have made: a rejected call
    has no effect on the calls after it. From a new builder the text is the
    rendered accepted fragments. *)
Theorem attempts_as_chain_of_kept (fs : list fragment) :
  (forall this,
      chain (kept (currentSelectorInQueue this) fs) this =
        (Normal tt, attempts fs this)) /\
  stringify (attempts fs new_Selector) = renderAll (kept 0 fs).
Proof.
  assert (forall this,
             chain (kept (currentSelectorInQueue this) fs) this =
               (Normal tt, attempts fs this)) as Hchain.
  { induction fs as [|f fs IH]; intros this; [reflexivity|].
    cbn [kept attempts fold_left]. unfold attempt at 2.
    destruct (accepts (currentSelectorInQueue this) f) eqn:Hacc.
    - rewrite chain_cons, (call_accepts _ _ Hacc). cbn [snd].
      exact (IH (mkSelector (textAfter f (resultSelector this)) (rank f)
                   (errorMessageForRepeat this) (errorMessageForSequence this))).
    - destruct (call_rejects _ _ Hacc) as [_ ->]. exact (IH this). }
  split; [exact Hchain|].
  specialize (Hchain new_Selector).
  pose proof (chain_normal_inv _ _ _ Hchain) as (Hadm & _).
  destruct (chain_admissible _ new_Selector Hadm) as (s & Hrun & Htext);
    [now left|].
  rewrite Hchain in Hrun. inversion Hrun; subst s. exact Htext.
Qed.

(* ------------------------------------------------------------------ *)
(** * Further properties of getJSON and fromJSON *)

Import NumberText.
















